(** * Code review script: [analyze_python_script]

    A shallow embedding of the notebook's code review cell
    (src/Code_Review_and_Debugging.ipynb, lines 31-64) together with the
    part of Python's [ast] module it calls ([ast.walk],
    [ast.iter_child_nodes]), of the example script and its rewrite
    (lines 93-100 and 130-131) and of the unit test (lines 193-194), and
    the properties of what they return. *)

From stdpp Require Import gmap strings list pretty.
From Equations Require Import Equations.

Set Warnings "-register-all".

Open Scope Z_scope.

(** ** Syntax trees

    Python's [ast] classes, restricted to the ones the script inspects.
    Fields are listed in the order of the class's [_fields]; a field that
    holds no node ([type_comment], [type_ignores]) is left out.  Every
    other class is an [Other] node carrying its class name and its
    node-valued fields, flattened in [_fields] order, which is all that
    [ast.walk] looks at. *)

(** [ast.alias]: one clause [name] or [name as asname] of an import. *)
Record alias : Type := mk_alias { name : string; asname : option string }.

(** [ast.expr_context] *)
Inductive expr_context : Type := Load | Store | Del.

Inductive AST : Type :=
| Module (body : list AST)
| Import (names : list alias) (lineno : Z)
| ImportFrom (module : option string) (names : list alias) (level : Z) (lineno : Z)
| For (target iter : AST) (body orelse : list AST) (lineno : Z)
| While (test : AST) (body orelse : list AST) (lineno : Z)
| If (test : AST) (body orelse : list AST) (lineno : Z)
| Name (id : string) (ctx : expr_context) (lineno : Z)
| AliasNode (a : alias)
| Ctx (c : expr_context)
| Other (cls : string) (fields : list AST).

(** [ast.iter_child_nodes(node)]: the direct child nodes, field by field. *)
Definition iter_child_nodes (node : AST) : list AST :=
  match node with
  | Module body => body
  | Import names _ => AliasNode <$> names
  | ImportFrom _ names _ _ => AliasNode <$> names
  | For target iter body orelse _ => target :: iter :: body ++ orelse
  | While test body orelse _ => test :: body ++ orelse
  | If test body orelse _ => test :: body ++ orelse
  | Name _ ctx _ => [Ctx ctx]
  | AliasNode _ => []
  | Ctx _ => []
  | Other _ fields => fields
  end.

(** Number of nodes of a tree, and of the trees waiting in a queue. *)
Fixpoint node_count (node : AST) : nat :=
  match node with
  | Module body => S (sum_list_with node_count body)
  | Import names _ => S (length names)
  | ImportFrom _ names _ _ => S (length names)
  | For target iter body orelse _ =>
      S (node_count target + node_count iter
         + sum_list_with node_count body + sum_list_with node_count orelse)
  | While test body orelse _ =>
      S (node_count test
         + sum_list_with node_count body + sum_list_with node_count orelse)
  | If test body orelse _ =>
      S (node_count test
         + sum_list_with node_count body + sum_list_with node_count orelse)
  | Name _ _ _ => 2%nat
  | AliasNode _ => 1%nat
  | Ctx _ => 1%nat
  | Other _ fields => S (sum_list_with node_count fields)
  end.

Definition queue_count (todo : list AST) : nat := sum_list_with node_count todo.

Lemma queue_count_app (q r : list AST) :
  queue_count (q ++ r) = (queue_count q + queue_count r)%nat.
Proof. apply sum_list_with_app. Qed.

Lemma queue_count_aliases (names : list alias) :
  queue_count (AliasNode <$> names) = length names.
Proof.
  unfold queue_count. induction names as [|a names IH]; simpl; [done|].
  f_equal. exact IH.
Qed.

Lemma iter_child_nodes_count (node : AST) :
  S (queue_count (iter_child_nodes node)) = node_count node.
Proof.
  destruct node; simpl; rewrite ?queue_count_aliases; try done;
    unfold queue_count; simpl; rewrite ?sum_list_with_app; lia.
Qed.

(** [ast.walk]: [todo = deque([node])], then repeatedly [popleft] a node,
    [extend] the queue with its children and yield it. *)
Equations? walk_queue (todo : list AST) : list AST by wf (queue_count todo) lt :=
  walk_queue [] := [];
  walk_queue (node :: rest) := node :: walk_queue (rest ++ iter_child_nodes node).
Proof.
  rewrite queue_count_app. unfold queue_count at 3. simpl.
  rewrite <- iter_child_nodes_count. fold (queue_count rest). lia.
Qed.

Definition walk (node : AST) : list AST := walk_queue [node].

(** ** Exceptions

    The script catches nothing: an exception raised by a step ends the
    call, and the caller gets the exception instead of a list. *)

Inductive exception : Type :=
| OSError
| UnicodeDecodeError
| SyntaxError
| IndexError.

Inductive result (A : Type) : Type :=
| Ok (value : A)
| Raise (e : exception).
Arguments Ok {A} value.
Arguments Raise {A} e.

#[global] Instance result_ret : MRet result := @Ok.

#[global] Instance result_bind : MBind result := λ A B k r,
  match r with
  | Ok value => k value
  | Raise e => Raise e
  end.

(** ** The review script *)

(** [isinstance(node, ast.For)] *)
Definition isinstance_For (node : AST) : bool :=
  match node with
  | For _ _ _ _ _ => true
  | _ => false
  end.

(** [isinstance(node, ast.Name)], with the [id] it then reads. *)
Definition Name_id (node : AST) : option string :=
  match node with
  | Name id _ _ => Some id
  | _ => None
  end.

(** [f"Inefficient nested loop found at line {node.lineno}"] *)
Definition nested_loop_message (lineno : Z) : string :=
  "Inefficient nested loop found at line " +:+ pretty lineno.

(** [f"Unused import: {unused}"] *)
Definition unused_import_message (unused : string) : string :=
  "Unused import: " +:+ unused.

(** One turn of the loop of lines 41-43: the message appended for [node],
    if any.
    [[
    if isinstance(node, ast.For) and any(isinstance(child, ast.For) for child in ast.walk(node)):
        issues.append(f"Inefficient nested loop found at line {node.lineno}")
    ]] *)
Definition nested_loop_issue (node : AST) : option string :=
  match node with
  | For _ _ _ _ lineno =>
      if existsb isinstance_For (walk node)
      then Some (nested_loop_message lineno)
      else None
  | _ => None
  end.

(** [for node in ast.walk(tree): ...] of lines 41-43. *)
Definition nested_loop_issues (tree : AST) : list string :=
  omap nested_loop_issue (walk tree).

(** Line 46:
    [{node.names[0].name for node in tree.body if isinstance(node, ast.Import)}].
    [names[0]] raises [IndexError] on an empty list. *)
Fixpoint imported_modules (body : list AST) : result (gset string) :=
  match body with
  | [] => Ok ∅
  | Import names _ :: rest =>
      match names with
      | [] => Raise IndexError
      | first :: _ =>
          modules ← imported_modules rest;
          Ok ({[ name first ]} ∪ modules)
      end
  | _ :: rest => imported_modules rest
  end.

(** Line 47: [{node.id for node in ast.walk(tree) if isinstance(node, ast.Name)}] *)
Definition used_modules (tree : AST) : gset string :=
  list_to_set (omap Name_id (walk tree)).

Section Script.

(** The order in which the interpreter iterates over a set of strings.
    Python leaves it unspecified; it lists every element once. *)
Variable set_iter : gset string → list string.

(** [open(file_path, "r", encoding="utf-8")] followed by [file.read()]. *)
Variable read_file : string → result string.

(** [ast.parse(text)]: the [body] of the [Module] it returns, or the
    [SyntaxError] it raises. *)
Variable ast_parse : string → result (list AST).

(** Lines 38-53, on the parsed [tree = Module body]. *)
Definition analyze (body : list AST) : result (list string) :=
  let tree := Module body in
  let issues := nested_loop_issues tree in
  imported ← imported_modules body;
  let used := used_modules tree in
  let unused_imports := imported ∖ used in
  Ok (issues ++ (unused_import_message <$> set_iter unused_imports)).

(** Lines 33-53. *)
Definition analyze_python_script (file_path : string) : result (list string) :=
  text ← read_file file_path;
  body ← ast_parse text;
  analyze body.

End Script.

(** [set_iter] is an iteration order: a listing of the set's elements. *)
Definition iteration_order (set_iter : gset string → list string) : Prop :=
  ∀ s, set_iter s ≡ₚ elements s.

(** ** Vocabulary of the properties *)

(** The category of a finding, read off its message. *)
Definition is_nested_loop_finding (issue : string) : bool :=
  String.prefix "Inefficient nested loop found at line " issue.

Definition is_unused_import_finding (issue : string) : bool :=
  String.prefix "Unused import: " issue.

(** The findings of one category, in the order they were reported. *)
Definition nested_loop_findings (issues : list string) : list string :=
  filter is_nested_loop_finding issues.

(** [subnode n t]: [n] is [t] or a node below it. *)
Inductive subnode (n : AST) : AST → Prop :=
| subnode_here : subnode n n
| subnode_below (child t : AST) :
    child ∈ iter_child_nodes t → subnode n child → subnode n t.

(** Some identifier of the tree is [N]: a [Name] node with [id = N] at any
    depth. *)
Definition referenced (N : string) (tree : AST) : Prop :=
  ∃ ctx lineno, subnode (Name N ctx lineno) tree.

(** What [ast.parse] guarantees about import statements: every [import]
    has at least one clause. *)
Definition import_has_clause (node : AST) : bool :=
  match node with
  | Import [] _ => false
  | _ => true
  end.

Definition parsed_body (body : list AST) : Prop :=
  Forall (λ node, import_has_clause node = true) body.

(** The module name of the first clause of each top-level [import]. *)
Definition first_import_name (node : AST) : option string :=
  match node with
  | Import (first :: _) _ => Some (name first)
  | _ => None
  end.

(** The nodes [d] levels below the roots of [forest], left to right. *)
Fixpoint level (d : nat) (forest : list AST) : list AST :=
  match d with
  | O => forest
  | S d => level d (forest ≫= iter_child_nodes)
  end.

(** Breadth-first order: level by level from the root. *)
Definition level_order (tree : AST) : list AST :=
  seq 0 (node_count tree) ≫= (λ d, level d [tree]).

(** The message a [For] node gets when it is flagged. *)
Definition For_message (node : AST) : option string :=
  match node with
  | For _ _ _ _ lineno => Some (nested_loop_message lineno)
  | _ => None
  end.

(** Follows the spec's words (section 4.2): the secondary traversal of the
    subtree of [node], excluding [node] itself, finds a loop. *)
Definition spec_has_inner_loop (node : AST) : bool :=
  existsb isinstance_For (walk_queue (iter_child_nodes node)).

(** Follows the spec's words (section 3): the names introduced by the
    top-level import statements, one per clause. *)
Definition spec_introduced_names (body : list AST) : list string :=
  body ≫= (λ node,
    match node with
    | Import names _ => name <$> names
    | _ => []
    end).

(** Follows the spec's words (section 4.2): depth-first pre-order visit. *)
Fixpoint spec_preorder (node : AST) : list AST :=
  node ::
  match node with
  | Module body => body ≫= spec_preorder
  | Import names _ => AliasNode <$> names
  | ImportFrom _ names _ _ => AliasNode <$> names
  | For target iter body orelse _ =>
      spec_preorder target ++ spec_preorder iter
      ++ (body ≫= spec_preorder) ++ (orelse ≫= spec_preorder)
  | While test body orelse _ =>
      spec_preorder test ++ (body ≫= spec_preorder) ++ (orelse ≫= spec_preorder)
  | If test body orelse _ =>
      spec_preorder test ++ (body ≫= spec_preorder) ++ (orelse ≫= spec_preorder)
  | Name _ ctx _ => [Ctx ctx]
  | AliasNode _ => []
  | Ctx _ => []
  | Other _ fields => fields ≫= spec_preorder
  end.

(** The claim that a name is reported exactly when an import statement
    introduces it and nothing refers to it. *)
Definition spec_unused_import_claim (set_iter : gset string → list string)
    (body : list AST) (N : string) : Prop :=
  ∃ issues, analyze set_iter body = Ok issues
    ∧ (unused_import_message N ∈ issues
       ↔ N ∈ spec_introduced_names body ∧ ¬ referenced N (Module body)).

(** Follows the claim's words: the name a clause binds, and the names
    bound by a [from ... import] clause or by the second or a later
    clause of a top-level [import] statement. *)
Definition spec_bound_name (a : alias) : string :=
  default (name a) (asname a).

Definition spec_later_clause_names (body : list AST) : list string :=
  body ≫= (λ node,
    match node with
    | ImportFrom _ names _ _ => spec_bound_name <$> names
    | Import (_ :: later) _ => spec_bound_name <$> later
    | _ => []
    end).

(** The claim that such a name is never reported as an unused import. *)
Definition spec_later_clause_claim (set_iter : gset string → list string)
    (body : list AST) : Prop :=
  ∃ issues, analyze set_iter body = Ok issues
    ∧ ∀ N, N ∈ spec_later_clause_names body →
           unused_import_message N ∉ issues.

(** The claim that the nested-loop findings come in pre-order: they are,
    in their order, among the loop messages of the pre-order visit. *)
Definition spec_preorder_claim (set_iter : gset string → list string)
    (body : list AST) : Prop :=
  ∃ issues, analyze set_iter body = Ok issues
    ∧ sublist (nested_loop_findings issues)
              (omap For_message (spec_preorder (Module body))).

(** Decides [sublist] by matching greedily from the left. *)
Fixpoint subsequence (l k : list string) : bool :=
  match k with
  | [] => match l with [] => true | _ :: _ => false end
  | y :: k' =>
      match l with
      | [] => true
      | x :: l' => if decide (x = y) then subsequence l' k' else subsequence l k'
      end
  end.

(** The same tree with every [while] statement turned into the [if]
    statement that has the same test and blocks. *)
Fixpoint while_to_if (node : AST) : AST :=
  match node with
  | Module body => Module (while_to_if <$> body)
  | For target iter body orelse lineno =>
      For (while_to_if target) (while_to_if iter)
          (while_to_if <$> body) (while_to_if <$> orelse) lineno
  | While test body orelse lineno =>
      If (while_to_if test) (while_to_if <$> body) (while_to_if <$> orelse) lineno
  | If test body orelse lineno =>
      If (while_to_if test) (while_to_if <$> body) (while_to_if <$> orelse) lineno
  | Other cls fields => Other cls (while_to_if <$> fields)
  | Import _ _ | ImportFrom _ _ _ _ | Name _ _ _ | AliasNode _ | Ctx _ => node
  end.

(** The same tree [k] lines further down in its file: what the parser
    returns for a piece of text when [k] lines are put in front of it. *)
Fixpoint shift_lines (k : Z) (node : AST) : AST :=
  match node with
  | Module body => Module (shift_lines k <$> body)
  | Import names lineno => Import names (lineno + k)
  | ImportFrom module names level lineno =>
      ImportFrom module names level (lineno + k)
  | For target iter body orelse lineno =>
      For (shift_lines k target) (shift_lines k iter)
          (shift_lines k <$> body) (shift_lines k <$> orelse) (lineno + k)
  | While test body orelse lineno =>
      While (shift_lines k test)
            (shift_lines k <$> body) (shift_lines k <$> orelse) (lineno + k)
  | If test body orelse lineno =>
      If (shift_lines k test)
         (shift_lines k <$> body) (shift_lines k <$> orelse) (lineno + k)
  | Name id ctx lineno => Name id ctx (lineno + k)
  | AliasNode _ | Ctx _ => node
  | Other cls fields => Other cls (shift_lines k <$> fields)
  end.

(** ** The caller of the review script (lines 55-64) *)

(** Line 56 *)
Definition file_to_check : string := "example_script.py".

(** Lines 59-64: what is printed, one string per [print].  [if issues:]
    is false exactly on the empty list. *)
Definition report (issues : list string) : list string :=
  match issues with
  | [] => ["✅ No issues found!"]
  | _ :: _ =>
      "⚠️ Code Review Issues Found:" :: ((λ issue, "- " +:+ issue) <$> issues)
  end.

(** Lines 56-64: the cell's top-level code.  An exception raised by
    [analyze_python_script] is not caught, so nothing is printed then. *)
Definition code_review_cell (set_iter : gset string → list string)
    (read_file : string → result string)
    (ast_parse : string → result (list AST)) : result (list string) :=
  issues ← analyze_python_script set_iter read_file ast_parse file_to_check;
  Ok (report issues).

(** ** The example script and its rewrite (lines 93-100, 130-131) *)

(** [[
    result = []
    for i in numbers:
        for j in numbers:
            if i * j > 10:
                result.append((i, j))
    return result
    ]] *)
Definition slow_function (numbers : list Z) : list (Z * Z) :=
  foldl (λ result i,
           foldl (λ result j,
                    if i * j >? 10 then result ++ [(i, j)] else result)
                 result numbers)
        [] numbers.

(** [return [(i, j) for i in numbers for j in numbers if i * j > 10]] *)
Definition optimized_function (numbers : list Z) : list (Z * Z) :=
  i ← numbers; j ← numbers; if i * j >? 10 then [(i, j)] else [].

(** Lines 193-194:
    [assert optimized_function([2, 5, 7]) == [(5, 7), (7, 5), (7, 7)]] *)
Definition test_optimized_function : bool :=
  bool_decide (optimized_function [2; 5; 7] = [(5, 7); (7, 5); (7, 7)]).

(** ** Sample scripts, as [ast.parse] returns them *)

Module Samples.

Definition Pass : AST := Other "Pass" [].
Definition Constant : AST := Other "Constant" [].
Definition Call (func : AST) (args : list AST) : AST := Other "Call" (func :: args).
Definition Attribute (value : AST) : AST := Other "Attribute" [value; Ctx Load].
Definition Expr (value : AST) : AST := Other "Expr" [value].
Definition Assign (target value : AST) : AST := Other "Assign" [target; value].
Definition FunctionDef (args : list AST) (body : list AST) : AST :=
  Other "FunctionDef" (Other "arguments" args :: body).

(** [for i in x: pass] *)
Definition single_loop : list AST :=
  [For (Name "i" Store 1) (Name "x" Load 1) [Pass] [] 1].

(** [for a in x:] / [for b in y:] / [pass] *)
Definition nested_pair : list AST :=
  [For (Name "a" Store 1) (Name "x" Load 1)
     [For (Name "b" Store 2) (Name "y" Load 2) [Pass] [] 2] [] 1].

(** [for a in x:] / [for b in y:] / [for c in z:] / [pass] *)
Definition nested_triple : list AST :=
  [For (Name "a" Store 1) (Name "x" Load 1)
     [For (Name "b" Store 2) (Name "y" Load 2)
        [For (Name "c" Store 3) (Name "z" Load 3) [Pass] [] 3] [] 2] [] 1].

(** [import os, sys] *)
Definition two_clauses : list AST :=
  [Import [mk_alias "os" None; mk_alias "sys" None] 1].

(** [import os] / [import sys] *)
Definition two_imports : list AST :=
  [Import [mk_alias "os" None] 1; Import [mk_alias "sys" None] 2].

(** [from os import path] / [import json, re] *)
Definition from_import : list AST :=
  [ImportFrom (Some "os") [mk_alias "path" None] 0 1;
   Import [mk_alias "json" None; mk_alias "re" None] 2].

(** [import json, re] / [import re] *)
Definition repeated_clause : list AST :=
  [Import [mk_alias "json" None; mk_alias "re" None] 1;
   Import [mk_alias "re" None] 2].

(** [import random] / [def f():] / [return random.random()] *)
Definition used_in_function : list AST :=
  [Import [mk_alias "random" None] 1;
   FunctionDef []
     [Other "Return" [Call (Attribute (Name "random" Load 3)) []]]].

(** [for a in x:] / [while c:] / [pass] *)
Definition while_in_for : list AST :=
  [For (Name "a" Store 1) (Name "x" Load 1)
     [While (Name "c" Load 2) [Pass] [] 2] [] 1].

(** Loops A (line 1) containing B (line 2) containing D (line 3),
    followed by C (line 4) containing E (line 5). *)
Definition two_nests : list AST :=
  [For (Name "a" Store 1) (Name "x" Load 1)
     [For (Name "b" Store 2) (Name "x" Load 2)
        [For (Name "d" Store 3) (Name "x" Load 3) [Pass] [] 3] [] 2] [] 1;
   For (Name "c" Store 4) (Name "x" Load 4)
     [For (Name "e" Store 5) (Name "x" Load 5) [Pass] [] 5] [] 4].

(** The notebook's example script (lines 89-103 of the notebook). *)
Definition example_script : list AST :=
  [Import [mk_alias "numpy" (Some "np")] 2;
   Import [mk_alias "random" None] 3;
   FunctionDef [Other "arg" []]
     [Assign (Name "result" Store 7) (Other "List" [Ctx Load]);
      For (Name "i" Store 8) (Name "numbers" Load 8)
        [For (Name "j" Store 9) (Name "numbers" Load 9)
           [If (Other "Compare"
                  [Other "BinOp" [Name "i" Load 10; Other "Mult" [];
                                  Name "j" Load 10];
                   Other "Gt" []; Constant])
               [Expr (Call (Attribute (Name "result" Load 11))
                        [Other "Tuple" [Name "i" Load 11; Name "j" Load 11;
                                        Ctx Load]])]
               [] 10]
           [] 9]
        [] 8;
      Other "Return" [Name "result" Load 12]];
   Assign (Name "data" Store 14)
     (Other "ListComp"
        [Call (Attribute (Name "random" Load 14)) [Constant; Constant];
         Other "comprehension"
           [Name "_" Store 14; Call (Name "range" Load 14) [Constant]]]);
   Expr (Call (Name "print" Load 15)
           [Call (Name "slow_function" Load 15) [Name "data" Load 15]])].

(** A parser that knows one script, and a file system with one file. *)
Definition parse_only (text : string) (body : list AST) (input : string)
  : result (list AST) :=
  if decide (input = text) then Ok body else Raise SyntaxError.

Definition one_file (path text : string) (file_path : string) : result string :=
  if decide (file_path = path) then Ok text else Raise OSError.

End Samples.

Import Samples.

(** ** Properties of [ast.walk] *)

Lemma walk_queue_app (q r : list AST) :
  walk_queue (q ++ r) = q ++ walk_queue (r ++ (q ≫= iter_child_nodes)).
Proof.
  revert r. induction q as [|node q IH]; intros r; simpl.
  - by rewrite app_nil_r.
  - simp walk_queue. rewrite <- app_assoc, IH. by rewrite <- app_assoc.
Qed.

Lemma walk_queue_levels (q : list AST) :
  walk_queue q = q ++ walk_queue (q ≫= iter_child_nodes).
Proof. by rewrite <- (app_nil_r q) at 1; rewrite walk_queue_app. Qed.

Lemma walk_head (node : AST) : ∃ rest, walk node = node :: rest.
Proof. unfold walk. simp walk_queue. eauto. Qed.

Lemma node_count_pos (node : AST) : (0 < node_count node)%nat.
Proof. rewrite <- iter_child_nodes_count. lia. Qed.

Lemma queue_count_cons (node : AST) (q : list AST) :
  queue_count (node :: q) = S (queue_count (iter_child_nodes node) + queue_count q).
Proof.
  unfold queue_count at 1. simpl. by rewrite <- iter_child_nodes_count.
Qed.

Lemma queue_count_children (q : list AST) :
  q ≠ [] → (queue_count (q ≫= iter_child_nodes) < queue_count q)%nat.
Proof.
  induction q as [|node q IH]; [done|]. intros _.
  rewrite bind_cons, queue_count_app, queue_count_cons.
  destruct q as [|node' q]; [simpl; lia|].
  specialize (IH ltac:(done)). lia.
Qed.

Lemma level_nil (d : nat) : level d [] = [].
Proof. induction d; simpl; done. Qed.

Lemma bind_level_nil (ds : list nat) : ds ≫= (λ d, level d []) = [].
Proof.
  induction ds as [|d ds IH]; [done|]. by rewrite bind_cons, level_nil, IH.
Qed.

Lemma walk_queue_level_order (n : nat) (q : list AST) :
  (queue_count q ≤ n)%nat →
  walk_queue q = seq 0 n ≫= (λ d, level d q).
Proof.
  revert q. induction n as [|n IH]; intros q Hn.
  - destruct q as [|node q]; [by simp walk_queue|].
    rewrite queue_count_cons in Hn. lia.
  - destruct (decide (q = [])) as [->|Hq].
    + simp walk_queue. by rewrite bind_level_nil.
    + rewrite walk_queue_levels, IH
        by (pose proof (queue_count_children q Hq); lia).
      rewrite <- cons_seq, bind_cons, <- fmap_S_seq, list_fmap_bind. done.
Qed.

Lemma walk_level_order (tree : AST) : walk tree = level_order tree.
Proof.
  apply walk_queue_level_order. unfold queue_count. simpl. lia.
Qed.

Lemma subnode_walk_queue (n t : AST) (q : list AST) :
  subnode n t → t ∈ q → n ∈ walk_queue q.
Proof.
  intros Hsub. revert q.
  induction Hsub as [|child t Hchild _ IH]; intros q Hq;
    rewrite walk_queue_levels; apply elem_of_app.
  - by left.
  - right. apply IH, list_elem_of_bind. eauto.
Qed.

Lemma walk_queue_subnode (n : AST) (q : list AST) :
  n ∈ walk_queue q → ∃ t, t ∈ q ∧ subnode n t.
Proof.
  remember (queue_count q) as k eqn:Hk. revert q Hk.
  induction (lt_wf k) as [k _ IH]; intros q -> Hn.
  destruct (decide (q = [])) as [->|Hq].
  - simp walk_queue in Hn. by apply elem_of_nil in Hn.
  - rewrite walk_queue_levels in Hn. apply elem_of_app in Hn as [Hn|Hn].
    + exists n. split; [done|constructor].
    + destruct (IH _ (queue_count_children q Hq) _ eq_refl Hn)
        as (child & Hchild & Hsub).
      apply list_elem_of_bind in Hchild as (t & Hchild & Ht).
      exists t. split; [done|]. by eapply subnode_below.
Qed.

Lemma elem_of_walk (n tree : AST) : n ∈ walk tree ↔ subnode n tree.
Proof.
  unfold walk. split.
  - intros (t & Ht & Hsub)%walk_queue_subnode.
    by apply list_elem_of_singleton in Ht as ->.
  - intros Hsub. eapply subnode_walk_queue; [done|]. by left.
Qed.

Lemma subnode_trans (a b c : AST) : subnode a b → subnode b c → subnode a c.
Proof.
  intros Hab Hbc. induction Hbc as [|child t Hchild _ IH]; [done|].
  eapply subnode_below; eauto.
Qed.

(** ** Properties of the messages *)

Lemma prefix_append (p s : string) : String.prefix p (p +:+ s) = true.
Proof.
  induction p as [|a p IH]; simpl; [by destruct s|].
  by destruct (Ascii.ascii_dec a a).
Qed.

Lemma nested_loop_message_category (lineno : Z) :
  is_nested_loop_finding (nested_loop_message lineno) = true
  ∧ is_unused_import_finding (nested_loop_message lineno) = false.
Proof. split; [apply prefix_append|reflexivity]. Qed.

Lemma unused_import_message_category (unused : string) :
  is_unused_import_finding (unused_import_message unused) = true
  ∧ is_nested_loop_finding (unused_import_message unused) = false.
Proof. split; [apply prefix_append|reflexivity]. Qed.

#[global] Instance unused_import_message_inj : Inj (=) (=) unused_import_message.
Proof. intros x y Heq. by apply String.app_inj in Heq. Qed.

#[global] Instance nested_loop_message_inj : Inj (=) (=) nested_loop_message.
Proof.
  intros x y Heq. apply String.app_inj in Heq. by apply (inj pretty).
Qed.

(** ** The nested-loop pass *)

(** The [any(...)] of line 42 ranges over [ast.walk(node)], whose first
    element is [node] itself. *)
Lemma any_For_walk_For target iter body orelse lineno :
  existsb isinstance_For (walk (For target iter body orelse lineno)) = true.
Proof.
  destruct (walk_head (For target iter body orelse lineno)) as [rest ->]. done.
Qed.

Lemma nested_loop_issue_For target iter body orelse lineno :
  nested_loop_issue (For target iter body orelse lineno)
  = Some (nested_loop_message lineno).
Proof. unfold nested_loop_issue. by rewrite any_For_walk_For. Qed.

Lemma nested_loop_issue_Some (node : AST) (issue : string) :
  nested_loop_issue node = Some issue ↔
  ∃ target iter body orelse lineno,
    node = For target iter body orelse lineno
    ∧ issue = nested_loop_message lineno.
Proof.
  split.
  - destruct node; try done. rewrite nested_loop_issue_For.
    intros [= <-]. eauto 10.
  - intros (target & iter & body & orelse & lineno & -> & ->).
    apply nested_loop_issue_For.
Qed.

Lemma nested_loop_issues_category (tree : AST) :
  Forall (λ issue, is_nested_loop_finding issue = true) (nested_loop_issues tree).
Proof.
  apply Forall_forall. intros issue (node & _ & Hnode)%list_elem_of_omap.
  apply nested_loop_issue_Some in Hnode as (? & ? & ? & ? & ? & _ & ->).
  apply nested_loop_message_category.
Qed.

(** ** The unused-import pass *)

Lemma imported_modules_parsed (body : list AST) :
  parsed_body body →
  imported_modules body = Ok (list_to_set (omap first_import_name body)).
Proof.
  induction 1 as [|node body Hnode _ IH]; [done|].
  destruct node as [|[|first names]| | | | | | | |]; simpl; try done.
  by rewrite IH.
Qed.

Lemma imported_modules_Raise (body : list AST) (e : exception) :
  imported_modules body = Raise e → e = IndexError ∧ ¬ parsed_body body.
Proof.
  induction body as [|node body IH]; [done|].
  assert (imported_modules body = Raise e →
          e = IndexError ∧ ¬ parsed_body (node :: body)) as IH'.
  { intros [-> Hbody]%IH. split; [done|].
    intros Hall. apply Hbody. by apply Forall_cons_1 in Hall as [_ ?]. }
  destruct node as [|[|first names]| | | | | | | |]; simpl; try done.
  - intros [= <-]. split; [done|].
    intros Hall. by apply Forall_cons_1 in Hall as [? _].
  - destruct (imported_modules body); [done|]. exact IH'.
Qed.

Lemma elem_of_imported (N : string) (body : list AST) :
  N ∈ omap first_import_name body ↔
  ∃ first names lineno,
    Import (first :: names) lineno ∈ body ∧ name first = N.
Proof.
  rewrite list_elem_of_omap. split.
  - intros (node & Hnode & Hfirst).
    destruct node as [|[|first names] lineno| | | | | | | |]; try done.
    injection Hfirst as <-. eauto.
  - intros (first & names & lineno & Hnode & <-). eauto.
Qed.

Lemma elem_of_used_modules (N : string) (tree : AST) :
  N ∈ used_modules tree ↔ ∃ ctx lineno, subnode (Name N ctx lineno) tree.
Proof.
  unfold used_modules. rewrite elem_of_list_to_set, list_elem_of_omap. split.
  - intros (node & Hnode%elem_of_walk & Hid).
    destruct node; try done. injection Hid as ->. eauto.
  - intros (ctx & lineno & Hsub%elem_of_walk). eauto.
Qed.

(** ** The whole analysis *)

Lemma analyze_parsed set_iter (body : list AST) :
  parsed_body body →
  analyze set_iter body
  = Ok (nested_loop_issues (Module body)
        ++ (unused_import_message
              <$> set_iter (list_to_set (omap first_import_name body)
                            ∖ used_modules (Module body)))).
Proof.
  intros Hbody. unfold analyze. by rewrite imported_modules_parsed.
Qed.

Lemma analyze_Raise set_iter (body : list AST) (e : exception) :
  analyze set_iter body = Raise e → e = IndexError ∧ ¬ parsed_body body.
Proof.
  unfold analyze. intros He. apply imported_modules_Raise.
  destruct (imported_modules body); simpl in He; [done|by injection He as ->].
Qed.

Lemma nested_loop_issue_For_message (node : AST) :
  nested_loop_issue node = For_message node.
Proof. destruct node; first [apply nested_loop_issue_For|reflexivity]. Qed.

Lemma filter_all {A} (P : A → Prop) `{!∀ x, Decision (P x)} (l : list A) :
  Forall P l → filter P l = l.
Proof.
  induction 1 as [|x l Hx _ IH]; [done|]. by rewrite filter_cons_True, IH.
Qed.

Lemma filter_none {A} (P : A → Prop) `{!∀ x, Decision (P x)} (l : list A) :
  Forall (λ x, ¬ P x) l → filter P l = [].
Proof.
  induction 1 as [|x l Hx _ IH]; [done|]. by rewrite filter_cons_False.
Qed.

Lemma nested_loop_issues_Forall (tree : AST) :
  Forall is_nested_loop_finding (nested_loop_issues tree).
Proof.
  eapply Forall_impl; [apply nested_loop_issues_category|].
  intros issue ->. done.
Qed.

Lemma unused_messages_Forall (unused : list string) :
  Forall is_unused_import_finding (unused_import_message <$> unused)
  ∧ Forall (λ issue, ¬ is_nested_loop_finding issue)
           (unused_import_message <$> unused).
Proof.
  split; apply Forall_fmap, Forall_forall; intros N _; unfold compose.
  - by rewrite (proj1 (unused_import_message_category N)).
  - rewrite (proj2 (unused_import_message_category N)). intros Hf. exact Hf.
Qed.

Lemma nested_loop_findings_app (tree : AST) (unused : list string) :
  nested_loop_findings
    (nested_loop_issues tree ++ (unused_import_message <$> unused))
  = nested_loop_issues tree.
Proof.
  unfold nested_loop_findings. rewrite filter_app.
  rewrite filter_all by apply nested_loop_issues_Forall.
  rewrite filter_none by apply unused_messages_Forall.
  apply app_nil_r.
Qed.

Lemma nested_loop_issues_For_message (tree : AST) :
  nested_loop_issues tree = omap For_message (walk tree).
Proof.
  unfold nested_loop_issues. apply list_omap_ext, Forall2_same_length_lookup.
  split; [done|]. intros i x y Hx Hy.
  rewrite Hx in Hy. injection Hy as <-. apply nested_loop_issue_For_message.
Qed.

Lemma nested_loop_issues_not_unused (tree : AST) :
  Forall (λ issue, ¬ is_unused_import_finding issue) (nested_loop_issues tree).
Proof.
  apply Forall_forall. intros issue (node & _ & Hnode)%list_elem_of_omap.
  apply nested_loop_issue_Some in Hnode as (? & ? & ? & ? & lineno & _ & ->).
  rewrite (proj2 (nested_loop_message_category lineno)). intros Hf. exact Hf.
Qed.

(** [spec_preorder] visits a node, then its children's subtrees in order. *)
Lemma spec_preorder_unfold (node : AST) :
  spec_preorder node = node :: (iter_child_nodes node ≫= spec_preorder).
Proof.
  assert (∀ names : list alias,
            (AliasNode <$> names) ≫= spec_preorder = AliasNode <$> names)
    as Haliases.
  { induction names as [|a names IH]; [done|].
    rewrite fmap_cons, bind_cons, IH. done. }
  destruct node; cbn [spec_preorder iter_child_nodes];
    rewrite ?Haliases, ?bind_cons, ?bind_app, ?bind_nil, <- ?app_assoc; done.
Qed.

Lemma sublist_subsequence (l k : list string) :
  sublist l k → subsequence l k = true.
Proof.
  revert l. induction k as [|y k IH]; intros l Hsub.
  - by apply sublist_nil_r in Hsub as ->.
  - destruct l as [|x l]; [done|]. simpl.
    apply sublist_cons_r in Hsub as [Hsub|(l' & [= -> ->] & Hsub)].
    + destruct (decide (x = y)) as [->|_]; [|by apply IH].
      apply IH. etrans; [apply sublist_cons|]; done.
    + rewrite decide_True by done. by apply IH.
Qed.

(** ** While loops *)

Lemma iter_child_nodes_while_to_if (node : AST) :
  iter_child_nodes (while_to_if node) = while_to_if <$> iter_child_nodes node.
Proof.
  destruct node; cbn [iter_child_nodes while_to_if];
    rewrite ?fmap_cons, ?fmap_app, <- ?list_fmap_compose; done.
Qed.

Lemma walk_queue_while_to_if (q : list AST) :
  walk_queue (while_to_if <$> q) = while_to_if <$> walk_queue q.
Proof.
  remember (queue_count q) as k eqn:Hk. revert q Hk.
  induction (lt_wf k) as [k _ IH]; intros q ->.
  destruct q as [|node q]; [by simp walk_queue|].
  rewrite fmap_cons. simp walk_queue. rewrite fmap_cons. f_equal.
  rewrite iter_child_nodes_while_to_if, <- fmap_app.
  eapply IH; [|done].
  rewrite queue_count_app, queue_count_cons. lia.
Qed.

Lemma isinstance_For_while_to_if (node : AST) :
  isinstance_For (while_to_if node) = isinstance_For node.
Proof. by destruct node. Qed.

Lemma For_message_while_to_if (node : AST) :
  For_message (while_to_if node) = For_message node.
Proof. by destruct node. Qed.

Lemma Name_id_while_to_if (node : AST) :
  Name_id (while_to_if node) = Name_id node.
Proof. by destruct node. Qed.

Lemma omap_fmap {A B C} (f : B → option C) (g : A → B) (l : list A) :
  omap f (g <$> l) = omap (f ∘ g) l.
Proof.
  induction l as [|x l IH]; [done|]. csimpl. by rewrite IH.
Qed.

Lemma nested_loop_issues_while_to_if (tree : AST) :
  nested_loop_issues (while_to_if tree) = nested_loop_issues tree.
Proof.
  rewrite !nested_loop_issues_For_message. unfold walk.
  change [while_to_if tree] with (while_to_if <$> [tree]).
  rewrite walk_queue_while_to_if, omap_fmap.
  apply list_omap_ext, Forall2_same_length_lookup. split; [done|].
  intros i x y Hx Hy. rewrite Hx in Hy. injection Hy as <-.
  apply For_message_while_to_if.
Qed.

Lemma used_modules_while_to_if (tree : AST) :
  used_modules (while_to_if tree) = used_modules tree.
Proof.
  unfold used_modules, walk. f_equal.
  change [while_to_if tree] with (while_to_if <$> [tree]).
  rewrite walk_queue_while_to_if, omap_fmap.
  apply list_omap_ext, Forall2_same_length_lookup. split; [done|].
  intros i x y Hx Hy. rewrite Hx in Hy. injection Hy as <-.
  apply Name_id_while_to_if.
Qed.

Lemma imported_modules_while_to_if (body : list AST) :
  imported_modules (while_to_if <$> body) = imported_modules body.
Proof.
  induction body as [|node body IH]; [done|]. rewrite fmap_cons.
  destruct node as [|[|first names]| | | | | | | |];
    cbn [while_to_if imported_modules]; rewrite ?IH; done.
Qed.


(** ** Which names are reported *)

Lemma referenced_walk (N : string) (tree : AST) :
  referenced N tree ↔ N ∈ omap Name_id (walk tree).
Proof.
  unfold referenced. rewrite <- elem_of_used_modules. unfold used_modules.
  by rewrite elem_of_list_to_set.
Qed.

Lemma elem_of_set_iter set_iter (s : gset string) (N : string) :
  iteration_order set_iter → N ∈ set_iter s ↔ N ∈ s.
Proof. intros Hiter. by rewrite (Hiter s), elem_of_elements. Qed.

Lemma NoDup_set_iter set_iter (s : gset string) :
  iteration_order set_iter → NoDup (set_iter s).
Proof. intros Hiter. rewrite (Hiter s). apply NoDup_elements. Qed.

Lemma unused_message_reported set_iter (body : list AST) (N : string) :
  iteration_order set_iter →
  unused_import_message N
    ∈ nested_loop_issues (Module body)
      ++ (unused_import_message
            <$> set_iter (list_to_set (omap first_import_name body)
                          ∖ used_modules (Module body)))
  ↔ N ∈ omap first_import_name body ∧ ¬ referenced N (Module body).
Proof.
  intros Hiter.
  rewrite elem_of_app, (list_elem_of_fmap_inj unused_import_message).
  rewrite elem_of_set_iter, elem_of_difference, elem_of_list_to_set by done.
  unfold referenced. rewrite <- elem_of_used_modules. split; [|by right].
  intros [Hloop|?]; [|done].
  pose proof (nested_loop_issues_not_unused (Module body)) as Hall.
  rewrite Forall_forall in Hall. destruct (Hall _ Hloop).
  by rewrite (proj1 (unused_import_message_category N)).
Qed.

Lemma length_filter_eq_NoDup {A} `{!EqDecision A} (l : list A) (x : A) :
  NoDup l → x ∈ l → length (filter (λ y, y = x) l) = 1%nat.
Proof.
  induction 1 as [|y l Hy _ IH]; intros Hx; [by apply elem_of_nil in Hx|].
  destruct (decide (y = x)) as [->|Hne].
  - rewrite filter_cons_True by done. simpl. f_equal.
    rewrite filter_none; [done|].
    apply Forall_forall. by intros z Hz ->.
  - rewrite filter_cons_False by done. apply IH.
    by apply elem_of_cons in Hx as [->|Hx].
Qed.

Lemma unused_message_once set_iter (body : list AST) (N : string) :
  iteration_order set_iter →
  let issues :=
    nested_loop_issues (Module body)
    ++ (unused_import_message
          <$> set_iter (list_to_set (omap first_import_name body)
                        ∖ used_modules (Module body))) in
  unused_import_message N ∈ issues →
  length (filter (λ issue, issue = unused_import_message N) issues) = 1%nat.
Proof.
  intros Hiter issues HN. unfold issues in *. clear issues.
  rewrite filter_app, length_app.
  rewrite filter_none; [simpl|].
  - apply elem_of_app in HN as [Hloop|HN].
    + pose proof (nested_loop_issues_not_unused (Module body)) as Hall.
      rewrite Forall_forall in Hall. destruct (Hall _ Hloop).
      by rewrite (proj1 (unused_import_message_category N)).
    + apply length_filter_eq_NoDup; [|done].
      by apply (NoDup_fmap_2 _), NoDup_set_iter.
  - eapply Forall_impl; [apply nested_loop_issues_not_unused|].
    intros issue Hissue ->. apply Hissue.
    by rewrite (proj1 (unused_import_message_category N)).
Qed.

(** ** Checking the hypotheses on a given script *)

Lemma parsed_body_Forall (body : list AST) :
  forallb import_has_clause body = true → parsed_body body.
Proof.
  intros H. apply Forall_forall. intros node Hnode%list_elem_of_In.
  rewrite forallb_forall in H. by apply H.
Qed.

Lemma not_referenced_walk (N : string) (tree : AST) :
  bool_decide (N ∈ omap Name_id (walk tree)) = false → ¬ referenced N tree.
Proof. rewrite referenced_walk. by intros ?%bool_decide_eq_false. Qed.

Lemma iteration_order_elements : iteration_order elements.
Proof. by intros s. Qed.

Lemma iteration_order_reverse : iteration_order (reverse ∘ elements).
Proof. intros s. apply reverse_Permutation. Qed.

(** ** Nested-loop findings *)

(** C1 (the code departs from the claim): every [for] statement of the
    tree gets a nested-loop finding at its line, whether or not its body
    holds another loop, because the [any] of line 42 ranges over
    [ast.walk(node)], which starts with [node] itself. *)
Theorem C1_every_For_is_reported set_iter (body : list AST) (lineno : Z) :
  parsed_body body →
  ∃ issues,
    analyze set_iter body = Ok issues
    ∧ (nested_loop_message lineno ∈ nested_loop_findings issues
       ↔ ∃ target iter block orelse,
           subnode (For target iter block orelse lineno) (Module body)).
Proof.
  intros Hbody. eexists. split; [by apply analyze_parsed|].
  rewrite nested_loop_findings_app. unfold nested_loop_issues.
  rewrite list_elem_of_omap. split.
  - intros (node & Hnode%elem_of_walk & Hissue).
    apply nested_loop_issue_Some in Hissue
      as (target & iter & block & orelse & lineno' & -> & Hline).
    apply (inj nested_loop_message) in Hline as ->. eauto.
  - intros (target & iter & block & orelse & Hsub%elem_of_walk).
    eexists. split; [done|]. apply nested_loop_issue_For.
Qed.

(** A single loop whose body is [pass] has no inner loop and is reported. *)
Lemma C1_single_loop_reported :
  parsed_body single_loop
  ∧ spec_has_inner_loop
      (For (Name "i" Store 1) (Name "x" Load 1) [Pass] [] 1) = false
  ∧ ∃ issues,
      analyze elements single_loop = Ok issues
      ∧ nested_loop_message 1 ∈ nested_loop_findings issues.
Proof.
  assert (parsed_body single_loop) as Hbody
    by (apply parsed_body_Forall; reflexivity).
  split; [exact Hbody|]. split; [reflexivity|].
  destruct (C1_every_For_is_reported elements single_loop 1 Hbody)
    as (issues & Hissues & Hiff).
  exists issues. split; [exact Hissues|]. apply Hiff.
  exists (Name "i" Store 1), (Name "x" Load 1), [Pass], [].
  eapply subnode_below; [|apply subnode_here]. left.
Defined.

(** C2 (the code departs from the claim): the nested-loop findings are the
    messages of all [for] statements of the tree, one per statement, so a
    loop nested in a loop yields two findings and a triple nest three. *)
Theorem C2_one_finding_per_For set_iter (body : list AST) :
  parsed_body body →
  ∃ issues,
    analyze set_iter body = Ok issues
    ∧ nested_loop_findings issues = omap For_message (walk (Module body)).
Proof.
  intros Hbody. eexists. split; [by apply analyze_parsed|].
  rewrite nested_loop_findings_app. apply nested_loop_issues_For_message.
Qed.

(** The inner loop of a pair is reported as well. *)
Lemma C2_nested_pair_reports_both :
  parsed_body nested_pair
  ∧ ∃ issues,
      analyze elements nested_pair = Ok issues
      ∧ nested_loop_findings issues
        = [nested_loop_message 1; nested_loop_message 2].
Proof.
  assert (parsed_body nested_pair) as Hbody
    by (apply parsed_body_Forall; reflexivity).
  split; [exact Hbody|].
  destruct (C2_one_finding_per_For elements nested_pair Hbody)
    as (issues & Hissues & Hloops).
  exists issues. split; [exact Hissues|]. rewrite Hloops. reflexivity.
Defined.

Example nested_triple_reports_three :
  analyze elements nested_triple
  = Ok ["Inefficient nested loop found at line 1";
        "Inefficient nested loop found at line 2";
        "Inefficient nested loop found at line 3"].
Proof. vm_compute. reflexivity. Qed.

Example example_script_findings :
  analyze elements example_script
  = Ok ["Inefficient nested loop found at line 8";
        "Inefficient nested loop found at line 9";
        "Unused import: numpy"].
Proof. vm_compute. reflexivity. Qed.

(** C6, as stated, fails: on two nests in a row the loop at line 4 is
    reported before the loop at line 2, which a pre-order visit meets
    first. *)
Lemma C6_not_preorder : ¬ spec_preorder_claim elements two_nests.
Proof.
  intros (issues & Hissues & Hsub).
  apply sublist_subsequence in Hsub.
  vm_compute in Hissues. injection Hissues as <-.
  vm_compute in Hsub. discriminate Hsub.
Qed.

(** C6 (amended): every nested-loop finding comes before every
    unused-import finding, and the nested-loop findings come in
    breadth-first order: level by level from the root, left to right
    within a level. *)
Theorem C6_findings_order set_iter (body : list AST) :
  parsed_body body →
  ∃ issues,
    analyze set_iter body = Ok issues
    ∧ (∀ i j a b,
         issues !! i = Some a → issues !! j = Some b →
         is_nested_loop_finding a → is_unused_import_finding b →
         (i < j)%nat)
    ∧ nested_loop_findings issues
      = omap nested_loop_issue (level_order (Module body)).
Proof.
  intros Hbody. eexists. split; [by apply analyze_parsed|]. split.
  - intros i j a b Ha Hb Hnested Hunused.
    set (loops := nested_loop_issues (Module body)) in *.
    assert (i < length loops)%nat as Hi.
    { destruct (decide (i < length loops)%nat) as [|Hge]; [done|].
      rewrite lookup_app_r in Ha by lia.
      apply list_elem_of_lookup_2, list_elem_of_fmap in Ha as (N & -> & _).
      by rewrite (proj2 (unused_import_message_category N)) in Hnested. }
    assert (length loops ≤ j)%nat as Hj; [|lia].
    destruct (decide (length loops ≤ j)%nat) as [|Hlt]; [done|].
    rewrite lookup_app_l in Hb by lia.
    apply list_elem_of_lookup_2 in Hb.
    pose proof (nested_loop_issues_not_unused (Module body)) as Hall.
    rewrite Forall_forall in Hall. by destruct (Hall b Hb).
  - rewrite nested_loop_findings_app. unfold nested_loop_issues.
    by rewrite walk_level_order.
Qed.

Lemma C6_findings_order_two_nests :
  parsed_body two_nests
  ∧ ∃ issues,
      analyze elements two_nests = Ok issues
      ∧ nested_loop_findings issues
        = nested_loop_message <$> [1; 4; 2; 5; 3].
Proof.
  assert (parsed_body two_nests) as Hbody
    by (apply parsed_body_Forall; reflexivity).
  split; [exact Hbody|].
  destruct (C6_findings_order elements two_nests Hbody)
    as (issues & Hissues & _ & Hloops).
  exists issues. split; [exact Hissues|]. rewrite Hloops. reflexivity.
Defined.

(** [for a in x:] / [while c:] / [pass]: nothing is reported at the line
    of the [while]. *)
Example while_in_for_findings :
  analyze elements while_in_for
  = Ok ["Inefficient nested loop found at line 1"]
  ∧ analyze elements (while_to_if <$> while_in_for)
    = analyze elements while_in_for.
Proof. split; vm_compute; reflexivity. Qed.

(** C10: a [while] statement never gets a nested-loop finding, and the
    findings do not depend on [while] statements at all: turning every
    [while] into an [if] with the same test and blocks leaves the result
    of the analysis unchanged. *)
Theorem C10_while_is_not_a_loop :
  (∀ test block orelse lineno,
     nested_loop_issue (While test block orelse lineno) = None)
  ∧ (∀ node, isinstance_For (while_to_if node) = isinstance_For node)
  ∧ (∀ set_iter body,
       analyze set_iter (while_to_if <$> body) = analyze set_iter body).
Proof.
  split; [done|]. split; [apply isinstance_For_while_to_if|].
  intros set_iter body. unfold analyze.
  change (Module (while_to_if <$> body)) with (while_to_if (Module body)).
  by rewrite imported_modules_while_to_if, nested_loop_issues_while_to_if,
    used_modules_while_to_if.
Qed.

(** ** Unused-import findings *)

(** C3, as stated, fails: [import os, sys] introduces [sys], nothing
    refers to it, and it is not reported. *)
Lemma C3_second_clause_not_reported :
  ¬ spec_unused_import_claim elements two_clauses "sys".
Proof.
  intros (issues & Hissues & Hiff).
  vm_compute in Hissues. injection Hissues as <-.
  assert (unused_import_message "sys" ∈ ["Unused import: os"]) as Hin.
  { apply Hiff. split.
    - apply (bool_decide_unpack _). vm_compute. exact I.
    - apply not_referenced_walk. vm_compute. reflexivity. }
  by apply list_elem_of_singleton in Hin.
Qed.

(** C3 (amended): [analyze] reports "Unused import: N" if and only if [N]
    is the module name of the first clause of a top-level [import]
    statement and no identifier of the tree is [N]; and a reported name is
    reported exactly once. *)
Theorem C3_unused_import_findings set_iter (body : list AST) (N : string) :
  iteration_order set_iter →
  parsed_body body →
  ∃ issues,
    analyze set_iter body = Ok issues
    ∧ (unused_import_message N ∈ issues
       ↔ (∃ first names lineno,
            Import (first :: names) lineno ∈ body ∧ name first = N)
         ∧ ¬ referenced N (Module body))
    ∧ (unused_import_message N ∈ issues →
       length (filter (λ issue, issue = unused_import_message N) issues)
       = 1%nat).
Proof.
  intros Hiter Hbody. eexists. split; [by apply analyze_parsed|]. split.
  - by rewrite unused_message_reported, elem_of_imported.
  - by apply unused_message_once.
Qed.

Lemma C3_first_clause_reported_once :
  iteration_order elements
  ∧ parsed_body two_clauses
  ∧ ∃ issues,
      analyze elements two_clauses = Ok issues
      ∧ unused_import_message "os" ∈ issues
      ∧ length (filter (λ issue, issue = unused_import_message "os") issues)
        = 1%nat.
Proof.
  assert (parsed_body two_clauses) as Hbody
    by (apply parsed_body_Forall; reflexivity).
  split; [exact iteration_order_elements|]. split; [exact Hbody|].
  destruct (C3_unused_import_findings elements two_clauses "os"
              iteration_order_elements Hbody)
    as (issues & Hissues & Hiff & Honce).
  assert (unused_import_message "os" ∈ issues) as Hin.
  { apply Hiff. split.
    - exists (mk_alias "os" None), [mk_alias "sys" None], 1.
      split; [left|reflexivity].
    - apply not_referenced_walk. vm_compute. reflexivity. }
  exists issues. split; [exact Hissues|]. split; [exact Hin|]. exact (Honce Hin).
Defined.

(** C4: a name that some identifier of the tree refers to, at any depth,
    is never reported as an unused import. *)
Theorem C4_referenced_name_not_reported set_iter (body : list AST)
    (X : string) (ctx : expr_context) (lineno : Z) :
  iteration_order set_iter →
  parsed_body body →
  subnode (Name X ctx lineno) (Module body) →
  ∃ issues,
    analyze set_iter body = Ok issues
    ∧ unused_import_message X ∉ issues.
Proof.
  intros Hiter Hbody Hsub. eexists. split; [by apply analyze_parsed|].
  rewrite unused_message_reported by done. intros [_ Hnot].
  apply Hnot. by exists ctx, lineno.
Qed.

Lemma C4_used_in_function :
  iteration_order elements
  ∧ parsed_body used_in_function
  ∧ subnode (Name "random" Load 3) (Module used_in_function)
  ∧ ∃ issues,
      analyze elements used_in_function = Ok issues
      ∧ unused_import_message "random" ∉ issues.
Proof.
  assert (parsed_body used_in_function) as Hbody
    by (apply parsed_body_Forall; reflexivity).
  assert (subnode (Name "random" Load 3) (Module used_in_function)) as Hsub.
  { apply elem_of_walk, (list_elem_of_lookup_2 _ 8). reflexivity. }
  split; [exact iteration_order_elements|]. split; [exact Hbody|].
  split; [exact Hsub|].
  exact (C4_referenced_name_not_reported elements used_in_function
           "random" Load 3 iteration_order_elements Hbody Hsub).
Defined.

(** C5: unused-import detection is keyed on the module name of the import,
    not on the alias: for a top-level [import module as asname] whose
    module name no identifier refers to, "Unused import: module" is
    reported, and the alias is not what is reported. *)
Theorem C5_module_name_is_the_key set_iter (body : list AST)
    (module : string) (asname : option string) (names : list alias)
    (lineno : Z) :
  iteration_order set_iter →
  parsed_body body →
  Import (mk_alias module asname :: names) lineno ∈ body →
  ¬ referenced module (Module body) →
  ∃ issues,
    analyze set_iter body = Ok issues
    ∧ unused_import_message module ∈ issues
    ∧ (∀ bound,
         asname = Some bound →
         bound ∉ omap first_import_name body →
         unused_import_message bound ∉ issues).
Proof.
  intros Hiter Hbody Himport Hunused.
  eexists. split; [by apply analyze_parsed|]. split.
  - apply unused_message_reported; [done|]. split; [|done].
    apply elem_of_imported. by exists (mk_alias module asname), names, lineno.
  - intros bound _ Hbound. rewrite unused_message_reported by done.
    by intros [? _].
Qed.

(** The notebook's example: [import numpy as np], neither name used. *)
Lemma C5_numpy_as_np :
  iteration_order elements
  ∧ parsed_body example_script
  ∧ (¬ referenced "numpy" (Module example_script))
  ∧ (¬ referenced "np" (Module example_script))
  ∧ ∃ issues,
      analyze elements example_script = Ok issues
      ∧ unused_import_message "numpy" ∈ issues
      ∧ unused_import_message "np" ∉ issues.
Proof.
  assert (parsed_body example_script) as Hbody
    by (apply parsed_body_Forall; reflexivity).
  assert (¬ referenced "numpy" (Module example_script)) as Hnumpy
    by (apply not_referenced_walk; vm_compute; reflexivity).
  assert (¬ referenced "np" (Module example_script)) as Hnp
    by (apply not_referenced_walk; vm_compute; reflexivity).
  split; [exact iteration_order_elements|]. split; [exact Hbody|].
  split; [exact Hnumpy|]. split; [exact Hnp|].
  destruct (C5_module_name_is_the_key elements example_script
              "numpy" (Some "np") [] 2 iteration_order_elements Hbody)
    as (issues & Hissues & Hmodule & Halias); [left|exact Hnumpy|].
  exists issues. split; [exact Hissues|]. split; [exact Hmodule|].
  apply (Halias "np" eq_refl).
  apply (bool_decide_eq_false_1 _). vm_compute. reflexivity.
Defined.

(** C9, as stated, fails: in [import json, re] / [import re] the name
    [re] is bound by the second clause of the first statement, and it is
    reported, through the second statement. *)
Lemma C9_later_clause_reported :
  ¬ spec_later_clause_claim elements repeated_clause.
Proof.
  intros (issues & Hissues & Hnever).
  vm_compute in Hissues. injection Hissues as <-.
  apply (Hnever "re").
  - apply (bool_decide_unpack _). vm_compute. exact I.
  - right. left.
Qed.

(** C9 (amended): only the first clause of each top-level [import]
    statement enters the imported set; a name that is not the module name
    of such a first clause (one bound only by [from ... import], or by a
    second or later clause) is never reported, whether or not it is
    referenced. *)
Theorem C9_only_first_clause_counts set_iter (body : list AST) :
  iteration_order set_iter →
  parsed_body body →
  ∃ imported issues,
    imported_modules body = Ok imported
    ∧ analyze set_iter body = Ok issues
    ∧ ∀ N,
        (N ∈ imported
         ↔ ∃ first names lineno,
             Import (first :: names) lineno ∈ body ∧ name first = N)
        ∧ (N ∉ imported → unused_import_message N ∉ issues).
Proof.
  intros Hiter Hbody. eexists _, _.
  split; [by apply imported_modules_parsed|].
  split; [by apply analyze_parsed|]. intros N. split.
  - by rewrite elem_of_list_to_set, elem_of_imported.
  - rewrite elem_of_list_to_set, unused_message_reported by done.
    by intros Hnot [? _].
Qed.

(** [from os import path] / [import json, re]: neither [path] nor [re],
    and not [os] either, is reported, though nothing refers to them. *)
Lemma C9_from_import_and_second_clause :
  iteration_order elements
  ∧ parsed_body from_import
  ∧ ∃ issues,
      analyze elements from_import = Ok issues
      ∧ (¬ referenced "path" (Module from_import))
      ∧ (¬ referenced "re" (Module from_import))
      ∧ (unused_import_message "path" ∉ issues)
      ∧ (unused_import_message "re" ∉ issues)
      ∧ unused_import_message "json" ∈ issues.
Proof.
  assert (parsed_body from_import) as Hbody
    by (apply parsed_body_Forall; reflexivity).
  split; [exact iteration_order_elements|]. split; [exact Hbody|].
  destruct (C9_only_first_clause_counts elements from_import
              iteration_order_elements Hbody)
    as (imported & issues & Himported & Hissues & Hspec).
  exists issues. split; [exact Hissues|].
  injection Himported as <-.
  split; [apply not_referenced_walk; vm_compute; reflexivity|].
  split; [apply not_referenced_walk; vm_compute; reflexivity|].
  split; [|split].
  - apply (Hspec "path"), (bool_decide_eq_false_1 _). vm_compute. reflexivity.
  - apply (Hspec "re"), (bool_decide_eq_false_1 _). vm_compute. reflexivity.
  - vm_compute in Hissues. injection Hissues as <-. left.
Defined.

(** ** The script as a whole *)

(** C7: when the text of the file does not parse, the call ends with the
    parser's [SyntaxError]: the analysis does not run and no finding is
    returned. *)
Theorem C7_syntax_error_aborts set_iter read_file ast_parse
    (file_path text : string) :
  read_file file_path = Ok text →
  ast_parse text = Raise SyntaxError →
  analyze_python_script set_iter read_file ast_parse file_path
  = Raise SyntaxError.
Proof.
  intros Hread Hparse. unfold analyze_python_script.
  rewrite Hread. simpl. by rewrite Hparse.
Qed.

Lemma C7_unbalanced_text :
  one_file "example_script.py" "print((1)" "example_script.py" = Ok "print((1)"
  ∧ parse_only "pass" [Pass] "print((1)" = Raise SyntaxError
  ∧ analyze_python_script elements
      (one_file "example_script.py" "print((1)") (parse_only "pass" [Pass])
      "example_script.py"
    = Raise SyntaxError.
Proof.
  split; [reflexivity|]. split; [reflexivity|].
  apply (C7_syntax_error_aborts elements
           (one_file "example_script.py" "print((1)") (parse_only "pass" [Pass])
           "example_script.py" "print((1)"); reflexivity.
Defined.

(** C8, as stated, fails: the unused imports are reported in the
    iteration order of a set of strings, which is not fixed from one run
    of the interpreter to the next; under two iteration orders the same
    tree gives two different sequences. *)
Lemma C8_order_of_unused_imports_varies :
  iteration_order elements
  ∧ iteration_order (reverse ∘ elements)
  ∧ analyze elements two_imports ≠ analyze (reverse ∘ elements) two_imports.
Proof.
  split; [exact iteration_order_elements|].
  split; [exact iteration_order_reverse|].
  vm_compute. discriminate.
Qed.

(** C8 (amended): two runs on the same file either fail with the same
    exception or return the same nested-loop findings in the same order,
    followed by the same unused-import findings up to their order. *)
Theorem C8_same_findings_up_to_set_order set_iter1 set_iter2
    read_file ast_parse (file_path : string) :
  iteration_order set_iter1 →
  iteration_order set_iter2 →
  match analyze_python_script set_iter1 read_file ast_parse file_path,
        analyze_python_script set_iter2 read_file ast_parse file_path with
  | Ok issues1, Ok issues2 =>
      ∃ loops unused1 unused2,
        issues1 = loops ++ unused1
        ∧ issues2 = loops ++ unused2
        ∧ loops = nested_loop_findings issues1
        ∧ loops = nested_loop_findings issues2
        ∧ unused1 ≡ₚ unused2
  | Raise e1, Raise e2 => e1 = e2
  | _, _ => False
  end.
Proof.
  intros Hiter1 Hiter2. unfold analyze_python_script.
  destruct (read_file file_path) as [text|e]; simpl; [|done].
  destruct (ast_parse text) as [body|e]; simpl; [|done].
  unfold analyze. destruct (imported_modules body) as [imported|e]; simpl; [|done].
  eexists _, _, _. split; [done|]. split; [done|].
  rewrite !nested_loop_findings_app. split; [done|]. split; [done|].
  apply fmap_Permutation. by rewrite (Hiter1 _), (Hiter2 _).
Qed.

Lemma C8_two_imports_two_orders :
  iteration_order elements
  ∧ iteration_order (reverse ∘ elements)
  ∧ match analyze_python_script elements
            (one_file "example_script.py" "import os; import sys")
            (parse_only "import os; import sys" two_imports)
            "example_script.py",
          analyze_python_script (reverse ∘ elements)
            (one_file "example_script.py" "import os; import sys")
            (parse_only "import os; import sys" two_imports)
            "example_script.py" with
    | Ok issues1, Ok issues2 =>
        ∃ loops unused1 unused2,
          issues1 = loops ++ unused1
          ∧ issues2 = loops ++ unused2
          ∧ loops = nested_loop_findings issues1
          ∧ loops = nested_loop_findings issues2
          ∧ unused1 ≡ₚ unused2
    | Raise e1, Raise e2 => e1 = e2
    | _, _ => False
    end.
Proof.
  split; [exact iteration_order_elements|].
  split; [exact iteration_order_reverse|].
  exact (C8_same_findings_up_to_set_order elements (reverse ∘ elements)
           (one_file "example_script.py" "import os; import sys")
           (parse_only "import os; import sys" two_imports)
           "example_script.py"
           iteration_order_elements iteration_order_reverse).
Defined.

(** ** The example script and its rewrite *)

Lemma inner_loop_appends (i : Z) (numbers : list Z) (result : list (Z * Z)) :
  foldl (λ result j, if i * j >? 10 then result ++ [(i, j)] else result)
        result numbers
  = result ++ (j ← numbers; if i * j >? 10 then [(i, j)] else []).
Proof.
  revert result. induction numbers as [|j numbers IH]; intros result.
  - by rewrite app_nil_r.
  - cbn [foldl]. rewrite IH, bind_cons.
    destruct (i * j >? 10); by rewrite <- ?app_assoc.
Qed.

Lemma outer_loop_appends (numbers rest : list Z) (result : list (Z * Z)) :
  foldl (λ result i,
           foldl (λ result j,
                    if i * j >? 10 then result ++ [(i, j)] else result)
                 result numbers)
        result rest
  = result ++ (i ← rest; j ← numbers; if i * j >? 10 then [(i, j)] else []).
Proof.
  revert result. induction rest as [|i rest IH]; intros result.
  - by rewrite app_nil_r.
  - cbn [foldl]. rewrite IH, inner_loop_appends, bind_cons.
    by rewrite <- app_assoc.
Qed.

Lemma slow_function_optimized (numbers : list Z) :
  slow_function numbers = optimized_function numbers.
Proof. unfold slow_function. by rewrite outer_loop_appends. Qed.

Lemma elem_of_optimized_function (numbers : list Z) (i j : Z) :
  (i, j) ∈ optimized_function numbers ↔ i ∈ numbers ∧ j ∈ numbers ∧ 10 < i * j.
Proof.
  unfold optimized_function. rewrite list_elem_of_bind. split.
  - intros (i' & (j' & Hpair & Hj)%list_elem_of_bind & Hi).
    destruct (i' * j' >? 10) eqn:Hgt; [|by apply elem_of_nil in Hpair].
    apply list_elem_of_singleton in Hpair as [= -> ->].
    by apply Z.gtb_lt in Hgt.
  - intros (Hi & Hj & Hgt). exists i. split; [|done].
    apply list_elem_of_bind. exists j. split; [|done].
    rewrite (proj2 (Z.gtb_lt _ _)) by done. left.
Qed.

Example optimized_function_2_5_7 :
  optimized_function [2; 5; 7] = [(2, 7); (5, 5); (5, 7); (7, 2); (7, 5); (7, 7)].
Proof. reflexivity. Qed.

Lemma bind_Permutation_ext {A B} (f g : A → list B) (l : list A) :
  (∀ x, f x ≡ₚ g x) → l ≫= f ≡ₚ l ≫= g.
Proof.
  intros Hfg. induction l as [|x l IH]; [done|].
  by rewrite !bind_cons, IH, (Hfg x).
Qed.

Lemma filter_bind {A B} (P : B → Prop) `{!∀ y, Decision (P y)}
    (f : A → list B) (l : list A) :
  filter P (l ≫= f) = l ≫= (λ x, filter P (f x)).
Proof.
  induction l as [|x l IH]; [done|]. by rewrite !bind_cons, filter_app, IH.
Qed.

Lemma length_bind_le {A B} (f : A → list B) (l : list A) (k : nat) :
  (∀ x, length (f x) ≤ k)%nat → (length (l ≫= f) ≤ length l * k)%nat.
Proof.
  intros Hf. induction l as [|x l IH]; [done|].
  rewrite bind_cons, length_app. specialize (Hf x). simpl. lia.
Qed.

(** The rewrite of the example script returns what the nested loops
    return: the same pairs in the same order. *)
Theorem optimized_function_same_result (numbers : list Z) :
  optimized_function numbers = slow_function numbers.
Proof. symmetry. apply slow_function_optimized. Qed.

(** The pairs [slow_function] returns are the pairs of members of the
    list whose product exceeds 10; a product of exactly 10 does not
    count. *)
Theorem slow_function_pairs (numbers : list Z) (i j : Z) :
  (i, j) ∈ slow_function numbers ↔ i ∈ numbers ∧ j ∈ numbers ∧ 10 < i * j.
Proof. rewrite slow_function_optimized. apply elem_of_optimized_function. Qed.

(** The pairs come in row-major order of the product of the list with
    itself, so there are at most [len(numbers)] squared of them. *)
Theorem optimized_function_row_major (numbers : list Z) :
  optimized_function numbers
  = filter (λ pair, 10 < pair.1 * pair.2) (cprod numbers numbers)
  ∧ (length (optimized_function numbers) ≤ length numbers * length numbers)%nat.
Proof.
  split.
  - unfold optimized_function, cprod, list_cprod. rewrite filter_bind.
    apply list_bind_ext; [|done]. intros i.
    induction numbers as [|j numbers IH]; [done|].
    rewrite bind_cons, fmap_cons, IH. simpl.
    destruct (i * j >? 10) eqn:Hgt.
    + apply Z.gtb_lt in Hgt. by rewrite filter_cons_True.
    + rewrite filter_cons_False; [done|]. simpl. intros Hlt.
      apply Z.gtb_lt in Hlt. congruence.
  - unfold optimized_function. apply length_bind_le. intros i.
    etrans; [apply (length_bind_le _ _ 1)|lia].
    intros j. destruct (i * j >? 10); simpl; lia.
Qed.

(** With a pair, the result holds the mirrored pair. *)
Theorem slow_function_symmetric (numbers : list Z) (i j : Z) :
  (i, j) ∈ slow_function numbers → (j, i) ∈ slow_function numbers.
Proof.
  rewrite !slow_function_optimized, !elem_of_optimized_function.
  intros (Hi & Hj & Hgt). repeat split; [done..|lia].
Qed.

Lemma slow_function_symmetric_example :
  (5, 7) ∈ slow_function [2; 5; 7] ∧ (7, 5) ∈ slow_function [2; 5; 7].
Proof.
  assert ((5, 7) ∈ slow_function [2; 5; 7]) as Hpair
    by (apply (list_elem_of_lookup_2 _ 2); reflexivity).
  split; [exact Hpair|].
  exact (slow_function_symmetric [2; 5; 7] 5 7 Hpair).
Defined.

(** On data drawn by [random.randint(1, 5)] only the numbers 3, 4 and 5
    occur in the pairs. *)
Theorem slow_function_randint_range (data : list Z) :
  Forall (λ x, 1 ≤ x ≤ 5) data →
  Forall (λ pair, 3 ≤ pair.1 ≤ 5 ∧ 3 ≤ pair.2 ≤ 5) (slow_function data).
Proof.
  intros Hdata. rewrite Forall_forall in Hdata.
  apply Forall_forall. intros [i j] Hpair. simpl.
  rewrite slow_function_optimized in Hpair.
  apply elem_of_optimized_function in Hpair as (Hi & Hj & Hgt).
  apply Hdata in Hi, Hj. nia.
Qed.

Lemma slow_function_randint_range_example :
  Forall (λ x, 1 ≤ x ≤ 5) [1; 5; 3; 4; 2]
  ∧ Forall (λ pair, 3 ≤ pair.1 ≤ 5 ∧ 3 ≤ pair.2 ≤ 5)
           (slow_function [1; 5; 3; 4; 2]).
Proof.
  assert (Forall (λ x, 1 ≤ x ≤ 5) [1; 5; 3; 4; 2]) as Hdata
    by (repeat constructor; lia).
  split; [exact Hdata|].
  exact (slow_function_randint_range [1; 5; 3; 4; 2] Hdata).
Defined.

(** No pair is returned when every number lies between -3 and 3, the
    empty list included: no product exceeds 9 then. *)
Theorem slow_function_small_numbers (numbers : list Z) :
  Forall (λ x, -3 ≤ x ≤ 3) numbers → slow_function numbers = [].
Proof.
  intros Hsmall. rewrite Forall_forall in Hsmall.
  destruct (slow_function numbers) as [|[i j] pairs] eqn:Hresult; [done|].
  assert ((i, j) ∈ slow_function numbers) as Hpair by (rewrite Hresult; left).
  rewrite slow_function_optimized in Hpair.
  apply elem_of_optimized_function in Hpair as (Hi & Hj & Hgt).
  apply Hsmall in Hi, Hj. nia.
Qed.

Lemma slow_function_small_numbers_example :
  Forall (λ x, -3 ≤ x ≤ 3) [3; -3; 2; 0]
  ∧ slow_function [3; -3; 2; 0] = [].
Proof.
  assert (Forall (λ x, -3 ≤ x ≤ 3) [3; -3; 2; 0]) as Hsmall
    by (repeat constructor; lia).
  split; [exact Hsmall|].
  exact (slow_function_small_numbers [3; -3; 2; 0] Hsmall).
Defined.

(** Reordering the input reorders the result: the same pairs come out,
    each as often. *)
Theorem slow_function_Permutation (numbers numbers' : list Z) :
  numbers ≡ₚ numbers' → slow_function numbers ≡ₚ slow_function numbers'.
Proof.
  intros Hperm. rewrite !slow_function_optimized. unfold optimized_function.
  etrans; [by apply bind_Permutation|].
  apply bind_Permutation_ext. intros i. by apply bind_Permutation.
Qed.

Lemma slow_function_Permutation_example :
  [2; 7; 5] ≡ₚ [5; 2; 7]
  ∧ slow_function [2; 7; 5] ≡ₚ slow_function [5; 2; 7].
Proof.
  assert ([2; 7; 5] ≡ₚ [5; 2; 7]) as Hperm.
  { change [2; 7; 5] with ([2; 7] ++ [5]). apply Permutation_app_comm. }
  split; [exact Hperm|].
  exact (slow_function_Permutation [2; 7; 5] [5; 2; 7] Hperm).
Defined.

(** The assertion of the notebook's unit test does not hold:
    [optimized_function([2, 5, 7])] also returns the pairs (2, 7), (5, 5)
    and (7, 2), which the expected list leaves out. *)
Theorem test_optimized_function_fails :
  test_optimized_function = false
  ∧ optimized_function [2; 5; 7]
    = [(2, 7); (5, 5); (5, 7); (7, 2); (7, 5); (7, 7)].
Proof. split; [by apply bool_decide_eq_false|reflexivity]. Qed.

(** ** When the analysis fails, and when it finds nothing *)

Lemma imported_modules_unparsed (body : list AST) :
  ¬ parsed_body body → imported_modules body = Raise IndexError.
Proof.
  induction body as [|node body IH]; intros Hnot.
  - destruct Hnot. constructor.
  - assert (import_has_clause node = true →
            imported_modules body = Raise IndexError) as Hrest.
    { intros Hnode. apply IH. intros Hbody. apply Hnot. by constructor. }
    destruct node as [|[|first names]| | | | | | | |];
      cbn [imported_modules]; try (by apply Hrest); [done|].
    by rewrite Hrest.
Qed.

Lemma omap_None_nil {A B} (f : A → option B) (l : list A) :
  omap f l = [] ↔ ∀ x, x ∈ l → f x = None.
Proof.
  split.
  - intros Hnil x Hx. destruct (f x) as [y|] eqn:Hfx; [|done].
    assert (y ∈ omap f l) as Hy by (apply list_elem_of_omap; eauto).
    rewrite Hnil in Hy. by apply elem_of_nil in Hy.
  - intros Hnone. destruct (omap f l) as [|y ys] eqn:Hmap; [done|].
    assert (y ∈ omap f l) as Hy by (rewrite Hmap; left).
    apply list_elem_of_omap in Hy as (x & Hx & Hfx).
    rewrite (Hnone x Hx) in Hfx. done.
Qed.

Lemma no_elements_nil {A} (l : list A) : (∀ x, x ∉ l) → l = [].
Proof. destruct l as [|x l]; [done|]. intros Hl. destruct (Hl x). left. Qed.

Lemma analyze_nil set_iter (body : list AST) :
  iteration_order set_iter →
  analyze set_iter body = Ok [] ↔
  parsed_body body
  ∧ (∀ node, subnode node (Module body) → isinstance_For node = false)
  ∧ (∀ N, N ∈ omap first_import_name body → referenced N (Module body)).
Proof.
  intros Hiter.
  destruct (decide (parsed_body body)) as [Hbody|Hbody]; cycle 1.
  { unfold analyze. rewrite imported_modules_unparsed by done.
    split; [done|]. by intros [? _]. }
  rewrite analyze_parsed by done. split.
  - intros [= [Hloops Hunused]%app_eq_nil]. split; [done|]. split.
    + intros node Hnode%elem_of_walk.
      unfold nested_loop_issues in Hloops.
      rewrite omap_None_nil in Hloops. specialize (Hloops node Hnode).
      destruct node; try reflexivity.
      by rewrite nested_loop_issue_For in Hloops.
    + intros N HN. apply fmap_nil_inv in Hunused.
      destruct (decide (N ∈ used_modules (Module body))) as [Hused|Hused].
      { by apply elem_of_used_modules. }
      assert (N ∈ set_iter (list_to_set (omap first_import_name body)
                            ∖ used_modules (Module body))) as Hin.
      { apply elem_of_set_iter; [done|].
        by rewrite elem_of_difference, elem_of_list_to_set. }
      rewrite Hunused in Hin. by apply elem_of_nil in Hin.
  - intros (_ & Hloops & Hunused). f_equal. apply app_nil. split.
    + apply omap_None_nil. intros node Hnode%elem_of_walk.
      specialize (Hloops node Hnode). by destruct node.
    + rewrite (no_elements_nil (set_iter _)); [done|]. intros N.
      rewrite elem_of_set_iter, elem_of_difference, elem_of_list_to_set by done.
      intros [HN Hused]. apply Hused, elem_of_used_modules. by apply Hunused.
Qed.

(** [analyze] fails exactly when some top-level [import] statement has no
    clause, which [ast.parse] never produces, and then with the
    [IndexError] of [names[0]]; the nested-loop findings collected before
    are lost. *)
Theorem analyze_raises_IndexError set_iter (body : list AST) (e : exception) :
  analyze set_iter body = Raise e ↔ e = IndexError ∧ ¬ parsed_body body.
Proof.
  split; [apply analyze_Raise|]. intros [-> Hbody].
  unfold analyze. by rewrite imported_modules_unparsed.
Qed.

(** ** What the caller prints *)

Lemma dash_line_inj : Inj (=) (=) (λ issue : string, "- " +:+ issue).
Proof. intros x y Heq. by apply String.app_inj in Heq. Qed.

(** The success line is printed exactly when there is no finding, and is
    then the only line; otherwise the header is printed first, followed
    by one line ["- <finding>"] per finding, in the order of the findings,
    and nothing else: one line more than there are findings. *)
Theorem report_two_branches (issues : list string) :
  ("✅ No issues found!" ∈ report issues ↔ issues = [])
  ∧ (issues = [] → report issues = ["✅ No issues found!"])
  ∧ (issues ≠ [] →
     report issues
     = "⚠️ Code Review Issues Found:" :: ((λ issue, "- " +:+ issue) <$> issues))
  ∧ (∀ k issue,
       issues !! k = Some issue →
       report issues !! S k = Some ("- " +:+ issue))
  ∧ (∀ issue, "- " +:+ issue ∈ report issues ↔ issue ∈ issues)
  ∧ length (report issues)
    = match issues with [] => 1%nat | _ :: _ => S (length issues) end.
Proof.
  destruct issues as [|first issues]; cbn [report].
  - split; [split; [done|left]|]. split; [done|]. split; [done|].
    split; [done|]. split; [|done]. intros issue. split.
    + by intros [=]%list_elem_of_singleton.
    + by intros ?%elem_of_nil.
  - split; [|split; [done|split; [done|split; [|split]]]].
    + split; [|done]. intros [Heq|Hin]%elem_of_cons; [done|].
      by apply list_elem_of_fmap in Hin as (issue & [=] & _).
    + intros k issue Hk. rewrite lookup_cons, list_lookup_fmap, Hk. done.
    + intros issue. rewrite elem_of_cons.
      rewrite (list_elem_of_fmap_inj _ (Inj0 := dash_line_inj)).
      split; [|by right]. by intros [[=]|?].
    + simpl. by rewrite length_fmap.
Qed.

Lemma report_eq_inv (issues1 issues2 : list string) :
  report issues1 = report issues2 → issues1 = issues2.
Proof.
  destruct issues1 as [|first1 issues1], issues2 as [|first2 issues2];
    cbn [report]; try done.
  intros Heq. apply (inj (cons _)) in Heq.
  by apply (inj (fmap _) (Inj := list_fmap_eq_inj _ dash_line_inj)) in Heq.
Qed.

(** The printed report determines the findings and their order. *)
Theorem report_inj (issues1 issues2 : list string) :
  report issues1 = report issues2 → issues1 = issues2.
Proof. apply report_eq_inv. Qed.

Lemma report_inj_example :
  report ["Unused import: os"] = report ["Unused import: os"]
  ∧ ["Unused import: os"] = ["Unused import: os"].
Proof.
  split; [reflexivity|].
  exact (report_inj ["Unused import: os"] ["Unused import: os"] eq_refl).
Defined.

(** The cell prints the success line, and only it, exactly when the file
    can be read and parsed, no [for] statement occurs anywhere in it, and
    the module name of the first clause of every top-level [import] is
    the name of some identifier. *)
Theorem code_review_cell_success set_iter read_file ast_parse :
  iteration_order set_iter →
  code_review_cell set_iter read_file ast_parse = Ok ["✅ No issues found!"]
  ↔ ∃ text body,
      read_file file_to_check = Ok text
      ∧ ast_parse text = Ok body
      ∧ parsed_body body
      ∧ (∀ node, subnode node (Module body) → isinstance_For node = false)
      ∧ (∀ N, N ∈ omap first_import_name body → referenced N (Module body)).
Proof.
  intros Hiter. unfold code_review_cell, analyze_python_script. split.
  - destruct (read_file file_to_check) as [text|e] eqn:Hread; simpl; [|done].
    destruct (ast_parse text) as [body|e] eqn:Hparse; simpl; [|done].
    destruct (analyze set_iter body) as [issues|e] eqn:Hissues; simpl; [|done].
    intros [= Hreport]. exists text, body. split; [done|]. split; [done|].
    apply (analyze_nil set_iter); [done|]. rewrite Hissues. f_equal.
    by apply (report_eq_inv issues []).
  - intros (text & body & -> & Hparse & Hnil). simpl. rewrite Hparse. simpl.
    apply (analyze_nil set_iter) in Hnil; [|done]. by rewrite Hnil.
Qed.

Lemma code_review_cell_success_example :
  iteration_order elements
  ∧ code_review_cell elements
      (one_file "example_script.py" "import random; print(random.random())")
      (parse_only "import random; print(random.random())"
         [Import [mk_alias "random" None] 1;
          Expr (Call (Name "print" Load 1)
                  [Call (Attribute (Name "random" Load 1)) []])])
    = Ok ["✅ No issues found!"].
Proof.
  split; [exact iteration_order_elements|].
  apply (code_review_cell_success elements _ _ iteration_order_elements).
  eexists _, _. split; [reflexivity|]. split; [reflexivity|].
  apply (analyze_nil elements); [exact iteration_order_elements|].
  vm_compute. reflexivity.
Defined.

(** ** The traversal and the findings as a collection *)

Lemma walk_queue_preorder (q : list AST) :
  walk_queue q ≡ₚ q ≫= spec_preorder.
Proof.
  remember (queue_count q) as k eqn:Hk. revert q Hk.
  induction (lt_wf k) as [k _ IH]; intros q ->.
  destruct q as [|node q]; [by simp walk_queue|].
  simp walk_queue. rewrite bind_cons, spec_preorder_unfold.
  rewrite (IH (queue_count (q ++ iter_child_nodes node)))
    by (rewrite ?queue_count_app, ?queue_count_cons; lia || done).
  rewrite bind_app. simpl. f_equiv. apply Permutation_app_comm.
Qed.

(** [ast.walk] yields the nodes a depth-first pre-order visit yields, each
    as often, so the nested-loop findings are, up to their order, the
    ones a pre-order visit would give. *)
Theorem nested_loop_findings_preorder set_iter (body : list AST) :
  parsed_body body →
  ∃ issues,
    analyze set_iter body = Ok issues
    ∧ walk (Module body) ≡ₚ spec_preorder (Module body)
    ∧ nested_loop_findings issues
      ≡ₚ omap For_message (spec_preorder (Module body)).
Proof.
  intros Hbody. eexists. split; [by apply analyze_parsed|].
  assert (walk (Module body) ≡ₚ spec_preorder (Module body)) as Hwalk.
  { unfold walk. rewrite walk_queue_preorder, bind_singleton. done. }
  split; [done|].
  rewrite nested_loop_findings_app, nested_loop_issues_For_message.
  by rewrite Hwalk.
Qed.

Lemma nested_loop_findings_preorder_two_nests :
  parsed_body two_nests
  ∧ ∃ issues,
      analyze elements two_nests = Ok issues
      ∧ nested_loop_findings issues
        ≡ₚ nested_loop_message <$> [1; 2; 3; 4; 5].
Proof.
  assert (parsed_body two_nests) as Hbody
    by (apply parsed_body_Forall; reflexivity).
  split; [exact Hbody|].
  destruct (nested_loop_findings_preorder elements two_nests Hbody)
    as (issues & Hissues & _ & Hperm).
  exists issues. split; [exact Hissues|]. exact Hperm.
Defined.

(** ** Scripts put one after the other *)

Lemma elem_of_analyze set_iter (body : list AST) (issue : string) :
  iteration_order set_iter →
  issue ∈ nested_loop_issues (Module body)
          ++ (unused_import_message
                <$> set_iter (list_to_set (omap first_import_name body)
                              ∖ used_modules (Module body)))
  ↔ (∃ target iter block orelse lineno,
       subnode (For target iter block orelse lineno) (Module body)
       ∧ issue = nested_loop_message lineno)
    ∨ (∃ N, issue = unused_import_message N
            ∧ N ∈ omap first_import_name body
            ∧ ¬ referenced N (Module body)).
Proof.
  intros Hiter. rewrite elem_of_app.
  assert (issue ∈ nested_loop_issues (Module body)
          ↔ ∃ target iter block orelse lineno,
              subnode (For target iter block orelse lineno) (Module body)
              ∧ issue = nested_loop_message lineno) as ->.
  { unfold nested_loop_issues. rewrite list_elem_of_omap. split.
    - intros (node & Hnode%elem_of_walk & Hissue).
      apply nested_loop_issue_Some in Hissue
        as (target & iter & block & orelse & lineno & -> & ->). eauto 10.
    - intros (target & iter & block & orelse & lineno & Hsub%elem_of_walk & ->).
      eexists. split; [done|]. apply nested_loop_issue_For. }
  rewrite list_elem_of_fmap.
  assert (∀ N, N ∈ set_iter (list_to_set (omap first_import_name body)
                             ∖ used_modules (Module body))
               ↔ N ∈ omap first_import_name body
                 ∧ ¬ referenced N (Module body)) as Hunused.
  { intros N.
    rewrite elem_of_set_iter, elem_of_difference, elem_of_list_to_set by done.
    unfold referenced. by rewrite <- elem_of_used_modules. }
  split; (intros [Hloop|(N & -> & HN)]; [by left|right]);
    exists N; (split; [done|]); by apply Hunused.
Qed.

Lemma subnode_Module (n : AST) (body : list AST) :
  subnode n (Module body) ↔
  n = Module body ∨ ∃ child, child ∈ body ∧ subnode n child.
Proof.
  split.
  - inversion 1 as [|child t Hchild Hsub]; subst; [by left|]. right. eauto.
  - intros [->|(child & Hchild & Hsub)]; [constructor|].
    by eapply subnode_below.
Qed.

Lemma subnode_Module_app (n : AST) (body1 body2 : list AST) :
  (∀ body, n ≠ Module body) →
  subnode n (Module (body1 ++ body2))
  ↔ subnode n (Module body1) ∨ subnode n (Module body2).
Proof.
  intros Hn. rewrite !subnode_Module. split.
  - intros [Heq|(child & [Hchild|Hchild]%elem_of_app & Hsub)];
      [by destruct (Hn _ Heq)|left|right]; right; eauto.
  - intros [[Heq|(child & Hchild & Hsub)]|[Heq|(child & Hchild & Hsub)]];
      try (by destruct (Hn _ Heq)); right; exists child;
      (split; [apply elem_of_app; by auto|done]).
Qed.

Lemma referenced_Module_app (N : string) (body1 body2 : list AST) :
  referenced N (Module (body1 ++ body2))
  ↔ referenced N (Module body1) ∨ referenced N (Module body2).
Proof.
  unfold referenced. split.
  - intros (ctx & lineno & Hsub). apply subnode_Module_app in Hsub; [|done].
    destruct Hsub; [left|right]; eauto.
  - intros [(ctx & lineno & Hsub)|(ctx & lineno & Hsub)];
      exists ctx, lineno; (apply subnode_Module_app; [done|]); auto.
Qed.

Lemma iter_child_nodes_shift_lines (k : Z) (node : AST) :
  iter_child_nodes (shift_lines k node)
  = shift_lines k <$> iter_child_nodes node.
Proof.
  destruct node; cbn [iter_child_nodes shift_lines];
    rewrite ?fmap_cons, ?fmap_app, <- ?list_fmap_compose; done.
Qed.

Lemma walk_queue_shift_lines (k : Z) (q : list AST) :
  walk_queue (shift_lines k <$> q) = shift_lines k <$> walk_queue q.
Proof.
  remember (queue_count q) as n eqn:Hn. revert q Hn.
  induction (lt_wf n) as [n _ IH]; intros q ->.
  destruct q as [|node q]; [by simp walk_queue|].
  rewrite fmap_cons. simp walk_queue. rewrite fmap_cons. f_equal.
  rewrite iter_child_nodes_shift_lines, <- fmap_app.
  eapply IH; [|done].
  rewrite queue_count_app, queue_count_cons. lia.
Qed.

Lemma subnode_shift_lines (k : Z) (n tree : AST) :
  subnode n (shift_lines k tree)
  ↔ ∃ m, subnode m tree ∧ n = shift_lines k m.
Proof.
  rewrite <- elem_of_walk. unfold walk.
  change [shift_lines k tree] with (shift_lines k <$> [tree]).
  rewrite walk_queue_shift_lines, list_elem_of_fmap.
  split; intros (m & Hm & Hsub); exists m; by rewrite <- ?elem_of_walk in *.
Qed.

Lemma referenced_shift_lines (k : Z) (N : string) (tree : AST) :
  referenced N (shift_lines k tree) ↔ referenced N tree.
Proof.
  unfold referenced. split.
  - intros (ctx & lineno & (m & Hm & Heq)%subnode_shift_lines).
    destruct m; try done. injection Heq as -> -> _. eauto.
  - intros (ctx & lineno & Hsub). exists ctx, (lineno + k).
    apply subnode_shift_lines. eauto.
Qed.

Lemma first_import_name_shift_lines (k : Z) (body : list AST) :
  omap first_import_name (shift_lines k <$> body)
  = omap first_import_name body.
Proof.
  rewrite omap_fmap. apply list_omap_ext, Forall2_same_length_lookup.
  split; [done|]. intros i x y Hx Hy. rewrite Hx in Hy. injection Hy as <-.
  by destruct x as [|[|first names]| | | | | | | |].
Qed.

Lemma parsed_body_shift_lines (k : Z) (body : list AST) :
  parsed_body body → parsed_body (shift_lines k <$> body).
Proof.
  intros Hbody. apply Forall_fmap. eapply Forall_impl; [exact Hbody|].
  by intros [|[|first names]| | | | | | | |].
Qed.

(** Appending a script to another, which moves its statements [k] lines
    down: a nested-loop finding is reported at a line exactly when the
    first script alone has it at that line or the second alone has it
    [k] lines higher, and an unused import is reported only if one of the
    two scripts alone reports it, and always when both do. *)
Theorem analyze_appended_script set_iter (k : Z) (body1 body2 : list AST) :
  iteration_order set_iter →
  parsed_body body1 →
  parsed_body body2 →
  ∃ issues issues1 issues2,
    analyze set_iter (body1 ++ (shift_lines k <$> body2)) = Ok issues
    ∧ analyze set_iter body1 = Ok issues1
    ∧ analyze set_iter body2 = Ok issues2
    ∧ (∀ lineno,
         nested_loop_message lineno ∈ issues
         ↔ nested_loop_message lineno ∈ issues1
           ∨ nested_loop_message (lineno - k) ∈ issues2)
    ∧ (∀ N,
         unused_import_message N ∈ issues →
         unused_import_message N ∈ issues1 ∨ unused_import_message N ∈ issues2)
    ∧ (∀ N,
         unused_import_message N ∈ issues1 →
         unused_import_message N ∈ issues2 →
         unused_import_message N ∈ issues).
Proof.
  intros Hiter Hbody1 Hbody2.
  assert (parsed_body (shift_lines k <$> body2)) as Hbody2'
    by by apply parsed_body_shift_lines.
  assert (parsed_body (body1 ++ (shift_lines k <$> body2))) as Hbody
    by by apply Forall_app.
  assert (∀ body lineno,
            (∃ target iter block orelse lineno',
               subnode (For target iter block orelse lineno') (Module body)
               ∧ nested_loop_message lineno = nested_loop_message lineno')
            ↔ ∃ target iter block orelse,
                subnode (For target iter block orelse lineno) (Module body))
    as Hloop.
  { intros body lineno. split.
    - intros (target & iter & block & orelse & lineno' & Hsub & Heq).
      apply (inj nested_loop_message) in Heq as ->. eauto.
    - intros (target & iter & block & orelse & Hsub). eauto 10. }
  assert (∀ body N,
            (∃ target iter block orelse lineno,
               subnode (For target iter block orelse lineno) (Module body)
               ∧ unused_import_message N = nested_loop_message lineno)
            ↔ False) as Hnoloop.
  { intros body N. split; [|done].
    intros (? & ? & ? & ? & lineno & _ & Heq).
    pose proof (proj1 (unused_import_message_category N)) as Hcat.
    rewrite Heq in Hcat.
    by rewrite (proj2 (nested_loop_message_category lineno)) in Hcat. }
  assert (∀ body lineno,
            (∃ N, nested_loop_message lineno = unused_import_message N
                  ∧ N ∈ omap first_import_name body
                  ∧ ¬ referenced N (Module body))
            ↔ False) as Hnounused.
  { intros body lineno. split; [|done]. intros (N & Heq & _).
    pose proof (proj1 (nested_loop_message_category lineno)) as Hcat.
    rewrite Heq in Hcat.
    by rewrite (proj2 (unused_import_message_category N)) in Hcat. }
  assert (∀ body N,
            (∃ N', unused_import_message N = unused_import_message N'
                   ∧ N' ∈ omap first_import_name body
                   ∧ ¬ referenced N' (Module body))
            ↔ N ∈ omap first_import_name body
              ∧ ¬ referenced N (Module body)) as Hunused.
  { intros body N. split.
    - by intros (N' & <-%(inj unused_import_message) & ?).
    - intros ?. by exists N. }
  eexists _, _, _. split; [by apply analyze_parsed|].
  split; [by apply analyze_parsed|]. split; [by apply analyze_parsed|].
  split; [|split].
  - intros lineno. rewrite !elem_of_analyze by done.
    rewrite !Hloop, !Hnounused. split.
    + intros [(target & iter & block & orelse & Hsub)|[]].
      apply subnode_Module_app in Hsub; [|done].
      destruct Hsub as [Hsub|Hsub]; [left; left; eauto 10|right; left].
      change (Module (shift_lines k <$> body2))
        with (shift_lines k (Module body2)) in Hsub.
      apply subnode_shift_lines in Hsub as (m & Hm & Heq).
      destruct m as [| | |target' iter' block' orelse' lineno'| | | | | |];
        try done.
      injection Heq as _ _ _ _ ->.
      replace (lineno' + k - k) with lineno' by lia. eauto 10.
    + intros [[(target & iter & block & orelse & Hsub)|[]]
             |[(target & iter & block & orelse & Hsub)|[]]]; left.
      * exists target, iter, block, orelse.
        apply subnode_Module_app; [done|]. by left.
      * exists (shift_lines k target), (shift_lines k iter),
          (shift_lines k <$> block), (shift_lines k <$> orelse).
        apply subnode_Module_app; [done|]. right.
        change (Module (shift_lines k <$> body2))
          with (shift_lines k (Module body2)).
        apply subnode_shift_lines. eexists. split; [exact Hsub|].
        cbn [shift_lines]. f_equal. lia.
  - intros N. rewrite !elem_of_analyze by done.
    rewrite !Hnoloop, !Hunused.
    rewrite omap_app, elem_of_app, first_import_name_shift_lines.
    rewrite referenced_Module_app.
    change (Module (shift_lines k <$> body2))
      with (shift_lines k (Module body2)).
    rewrite referenced_shift_lines. tauto.
  - intros N. rewrite !elem_of_analyze by done.
    rewrite !Hnoloop, !Hunused.
    rewrite omap_app, elem_of_app, first_import_name_shift_lines.
    rewrite referenced_Module_app.
    change (Module (shift_lines k <$> body2))
      with (shift_lines k (Module body2)).
    rewrite referenced_shift_lines. tauto.
Qed.

(** [for i in x: pass] on one line, followed by the nested pair: the
    pair's loops are reported at lines 2 and 3. *)
Lemma analyze_appended_script_example :
  iteration_order elements
  ∧ parsed_body single_loop
  ∧ parsed_body nested_pair
  ∧ ∃ issues,
      analyze elements (single_loop ++ (shift_lines 1 <$> nested_pair))
      = Ok issues
      ∧ nested_loop_message 1 ∈ issues
      ∧ nested_loop_message 2 ∈ issues
      ∧ nested_loop_message 3 ∈ issues.
Proof.
  assert (parsed_body single_loop) as Hbody1
    by (apply parsed_body_Forall; reflexivity).
  assert (parsed_body nested_pair) as Hbody2
    by (apply parsed_body_Forall; reflexivity).
  split; [exact iteration_order_elements|].
  split; [exact Hbody1|]. split; [exact Hbody2|].
  destruct (analyze_appended_script elements 1 single_loop nested_pair
              iteration_order_elements Hbody1 Hbody2)
    as (issues & issues1 & issues2 & Hissues & H1 & H2 & Hloops & _).
  vm_compute in H1. injection H1 as <-.
  vm_compute in H2. injection H2 as <-.
  exists issues. split; [exact Hissues|].
  split; [|split]; apply Hloops.
  - left. left.
  - right. left.
  - right. right. left.
Defined.

(** ** How many findings *)

Lemma size_list_to_set_le (l : list string) :
  (size (list_to_set l : gset string) ≤ length l)%nat.
Proof.
  induction l as [|x l IH]; [by rewrite list_to_set_nil, size_empty|].
  rewrite list_to_set_cons. simpl.
  destruct (decide (x ∈ (list_to_set l : gset string))) as [Hin|Hnotin].
  - rewrite (subseteq_union_1_L {[x]}) by set_solver. lia.
  - rewrite size_union by set_solver. rewrite size_singleton. lia.
Qed.

Lemma length_omap_For_message (l : list AST) :
  length (omap For_message l) = length (filter isinstance_For l).
Proof.
  induction l as [|node l IH]; [done|].
  destruct node; csimpl; rewrite ?filter_cons_True, ?filter_cons_False by done;
    simpl; by rewrite IH.
Qed.

(** There is one finding for each [for] statement of the tree, and at
    most one for each top-level [import] statement, so never more
    findings than that. *)
Theorem findings_count set_iter (body : list AST) :
  iteration_order set_iter →
  parsed_body body →
  ∃ issues,
    analyze set_iter body = Ok issues
    ∧ length (nested_loop_findings issues)
      = length (filter isinstance_For (walk (Module body)))
    ∧ (length issues
       ≤ length (filter isinstance_For (walk (Module body)))
         + length (omap first_import_name body))%nat.
Proof.
  intros Hiter Hbody. eexists. split; [by apply analyze_parsed|].
  rewrite nested_loop_findings_app, nested_loop_issues_For_message.
  rewrite length_omap_For_message. split; [done|].
  rewrite length_app, length_omap_For_message, length_fmap.
  apply Nat.add_le_mono_l. rewrite (Hiter _).
  pose proof (size_list_to_set_le (omap first_import_name body)) as Hle.
  assert (list_to_set (omap first_import_name body)
          ∖ used_modules (Module body)
          ⊆ (list_to_set (omap first_import_name body) : gset string))
    as Hsub by (by apply subseteq_difference_l).
  apply subseteq_size in Hsub.
  unfold size, set_size in Hle, Hsub. simpl in Hle, Hsub.
  etrans; [exact Hsub|exact Hle].
Qed.

Lemma findings_count_example_script :
  iteration_order elements
  ∧ parsed_body example_script
  ∧ ∃ issues,
      analyze elements example_script = Ok issues
      ∧ length (nested_loop_findings issues) = 2%nat
      ∧ (length issues ≤ 4)%nat.
Proof.
  assert (parsed_body example_script) as Hbody
    by (apply parsed_body_Forall; reflexivity).
  split; [exact iteration_order_elements|]. split; [exact Hbody|].
  destruct (findings_count elements example_script
              iteration_order_elements Hbody)
    as (issues & Hissues & Hloops & Hbound).
  exists issues. split; [exact Hissues|]. split; [exact Hloops|]. exact Hbound.
Defined.
